(** * adapt_callbacks: adapting a callback API to blocking-looking calls

    A shallow embedding of [examples/adapt_callbacks.cpp]: the fake
    [AsyncAPI] service, the four adapters built on a promise/future pair,
    the [make_exception] helper and the driving logic of [main].

    The service object is threaded explicitly.  A detached thread is the
    closure it runs; the calling fiber is the only consumer of the future,
    so [future.get()] is modelled as running that closure on the promise's
    shared state and reading the result. *)

From Stdlib Require Import ZArith String Ascii List Bool Lia.
Import ListNotations.

Local Open Scope string_scope.
Local Open Scope Z_scope.

(** ** Formatted output of an [int]

    [buffer << ec] with the default flags of a [std::ostringstream]:
    base ten, a minus sign for negative values, no padding, no grouping.
    Digits are produced from the least significant one, each pushed in
    front of what has been produced so far. *)

Definition digit_char (d : Z) : ascii := ascii_of_N (48 + Z.to_N d).

Fixpoint put_digits (fuel : nat) (n : Z) (acc : string) : string :=
  match fuel with
  | O => acc
  | S fuel' =>
      let acc' := String (digit_char (n mod 10)) acc in
      if n / 10 =? 0 then acc' else put_digits fuel' (n / 10) acc'
  end.

(** A value below [2^k] has at most [k] binary, hence at most [k] decimal
    digits; one more step of fuel covers zero. *)
Definition digit_fuel (n : Z) : nat := S (Z.to_nat (Z.log2 n)).

Definition put_unsigned (n : Z) : string := put_digits (digit_fuel n) n "".

Definition put_int (v : Z) : string :=
  if v <? 0 then String "-" (put_unsigned (- v)) else put_unsigned v.

(** Reading a decimal numeral back, most significant digit first. *)
Definition digit_value (c : ascii) : Z := Z.of_N (N_of_ascii c) - 48.

Definition is_digit (c : ascii) : bool :=
  (48 <=? Z.of_N (N_of_ascii c)) && (Z.of_N (N_of_ascii c) <=? 57).

Fixpoint numeral_value (s : string) (v : Z) : Z :=
  match s with
  | EmptyString => v
  | String c s' => numeral_value s' (10 * v + digit_value c)
  end.

Fixpoint all_digits (s : string) : bool :=
  match s with
  | EmptyString => true
  | String c s' => is_digit c && all_digits s'
  end.

Definition int_value (s : string) : Z :=
  match s with
  | EmptyString => 0
  | String c s' =>
      if (c =? "-")%char then - numeral_value s' 0 else numeral_value s 0
  end.

(** ** The example async API *)

(* callbacks accept an int error code; 0 == success *)
Definition errorcode := Z.

Record AsyncAPI := mkAsyncAPI {
  data_ : string;
  injected_ : errorcode
}.

(* the constructor only sets injected_; data_ is the empty string *)
Definition AsyncAPI_new : AsyncAPI := {| data_ := ""; injected_ := 0 |}.

(** [std::runtime_error]: an exception built from a [std::string], which
    it keeps; [what()] hands it out as a [const char*], so that a reader
    sees the bytes before the first NUL only. *)
Record runtime_error := mk_runtime_error { message : string }.

(* a std::string read as a NUL-terminated array of char *)
Fixpoint c_str (s : string) : string :=
  match s with
  | EmptyString => EmptyString
  | String c s' =>
      if (c =? Ascii.zero)%char then EmptyString else String c (c_str s')
  end.

Definition what (e : runtime_error) : string := c_str (message e).

(** ** Promise and future

    The shared state of a [boost::fibers::promise<T>] and its future. *)

Inductive shared_state (T : Type) :=
| NotReady
| HasValue (v : T)
| HasException (e : runtime_error).
Arguments NotReady {T}.
Arguments HasValue {T} v.
Arguments HasException {T} e.

(** How a call ends for the calling fiber.  [Halted] stands for a program
    that does not go on: a failed [assert], [std::terminate] after an
    exception escaped a detached thread, or a future that is never made
    ready. *)
Inductive outcome (T : Type) :=
| Returned (v : T)
| Thrown (e : runtime_error)
| Halted.
Arguments Returned {T} v.
Arguments Thrown {T} e.
Arguments Halted {T}.

(* storing into a promise that is already satisfied throws
   promise_already_satisfied: None *)
Definition set_value {T} (v : T) (p : shared_state T) : option (shared_state T) :=
  match p with
  | NotReady => Some (HasValue v)
  | _ => None
  end.

Definition set_exception {T} (e : runtime_error) (p : shared_state T)
  : option (shared_state T) :=
  match p with
  | NotReady => Some (HasException e)
  | _ => None
  end.

(** The body of a detached thread that was handed a callback writing into
    the promise of its caller. *)
Definition detached (T : Type) := shared_state T -> option (shared_state T).

(** ** Calls on the service: state passing with exceptions

    A throw keeps what the call did to the service before it. *)
Definition M (T : Type) := AsyncAPI -> AsyncAPI * outcome T.

Definition ret {T} (v : T) : M T := fun api => (api, Returned v).

Definition bind {A B} (m : M A) (k : A -> M B) : M B :=
  fun api =>
    match m api with
    | (api', Returned v) => k v api'
    | (api', Thrown e) => (api', Thrown e)
    | (api', Halted) => (api', Halted)
    end.

Definition throw {T} (e : runtime_error) : M T := fun api => (api, Thrown e).

Definition halt {T} : M T := fun api => (api, Halted).

Declare Scope call_scope.
Delimit Scope call_scope with call.
Notation "x <- m ;; k" := (bind m (fun x => k))
  (at level 61, m at next level, right associativity) : call_scope.
Notation "m ;; k" := (bind m (fun _ => k))
  (at level 61, right associativity) : call_scope.
Local Open Scope call_scope.

(* future.get(): the fiber is suspended until the detached thread has run
   the callback, then takes the value or rethrows the stored exception *)
Definition future_get {T} (t : detached T) (promise : shared_state T) : M T :=
  match t promise with
  | Some (HasValue v) => ret v
  | Some (HasException e) => throw e
  | Some NotReady => halt
  | None => halt
  end.

Definition inject_error (ec : errorcode) : M unit :=
  fun api => ({| data_ := data_ api; injected_ := ec |}, Returned tt).

Definition init_write {T} (data : string)
    (callback : errorcode -> detached T) : M (detached T) :=
  fun api =>
    (* make a local copy of injected_ *)
    let injected := injected_ api in
    (* reset it synchronously with caller *)
    let api := {| data_ := data_ api; injected_ := 0 |} in
    (* update data_ (this might be an echo service) *)
    let api := if injected =? 0
               then {| data_ := data; injected_ := injected_ api |}
               else api in
    (* the detached thread echoes back any previously-injected errorcode *)
    (api, Returned (fun p => callback injected p)).

Definition init_read {T}
    (callback : errorcode -> string -> detached T) : M (detached T) :=
  fun api =>
    let injected := injected_ api in
    let api := {| data_ := data_ api; injected_ := 0 |} in
    (* local copy of data_ so we can capture in lambda *)
    let data := data_ api in
    (api, Returned (fun p => callback injected data p)).

(** ** Helpers *)

Definition make_exception (desc : string) (ec : errorcode) : runtime_error :=
  let buffer := "" in
  let buffer := buffer ++ "Error in AsyncAPI::" in
  let buffer := buffer ++ desc in
  let buffer := buffer ++ "(): " in
  let buffer := buffer ++ put_int ec in
  mk_runtime_error buffer.

(** ** Adapters *)

Definition write_ec (data : string) : M errorcode :=
  let promise : shared_state errorcode := NotReady in
  t <- init_write data (fun ec => set_value ec) ;;
  future_get t promise.

Definition write (data : string) : M unit :=
  ec <- write_ec data ;;
  if negb (ec =? 0) then throw (make_exception "write" ec) else ret tt.

Definition read_ec : M (errorcode * string) :=
  let promise : shared_state (errorcode * string) := NotReady in
  t <- init_read (fun ec data => set_value (ec, data)) ;;
  future_get t promise.

Definition read : M string :=
  let promise : shared_state string := NotReady in
  t <- init_read (fun ec data =>
         if ec =? 0
         then set_value data
         else set_exception (make_exception "read" ec)) ;;
  future_get t promise.

(** ** Driving logic *)

(* assert(cond): a failed assertion aborts the program *)
Definition assert (cond : bool) : M unit := if cond then ret tt else halt.

(* try { body } catch (const std::exception& e) { handler } *)
Definition try_catch {T} (body : M T) (handler : runtime_error -> M T) : M T :=
  fun api =>
    match body api with
    | (api', Thrown e) => handler e api'
    | r => r
    end.

Definition EXIT_SUCCESS : Z := 0.

Definition main : M Z :=
  (* successful write(): prime AsyncAPI with some data *)
  write "abcd" ;;
  (* successful read(): retrieve it *)
  s <- read ;;
  assert (s =? "abcd")%string ;;
  (* successful write_ec() *)
  ec <- write_ec "efgh" ;;
  assert (ec =? 0) ;;
  (* write_ec() with error *)
  inject_error 1 ;;
  ec <- write_ec "ijkl" ;;
  assert (ec =? 1) ;;
  (* write() with error *)
  let thrown := "" in
  inject_error 2 ;;
  thrown <- try_catch (write "mnop" ;; ret thrown) (fun e => ret (what e)) ;;
  assert (thrown =? what (make_exception "write" 2))%string ;;
  (* successful read_ec() *)
  r <- read_ec ;;
  let (ec, data) := r in
  assert (ec =? 0) ;;
  assert (data =? "efgh")%string ;; (* last successful write_ec() *)
  (* read_ec() with error *)
  inject_error 3 ;;
  r <- read_ec ;;
  let (ec, data) := r in
  assert (ec =? 3) ;;
  (* read() with error *)
  let thrown := "" in
  inject_error 4 ;;
  r <- try_catch (d <- read ;; ret (thrown, d)) (fun e => ret (what e, data)) ;;
  let (thrown, data) := r in
  assert (thrown =? what (make_exception "read" 4))%string ;;
  ret EXIT_SUCCESS.

(** ** Histories of calls

    To speak of "the last successful write" the calls a client makes are
    recorded together with what each of them gave back. *)

Inductive call :=
| CallInject (ec : errorcode)
| CallWrite (data : string)
| CallWriteEc (data : string)
| CallRead
| CallReadEc.

Inductive observation :=
| ObsInject (r : outcome unit)
| ObsWrite (r : outcome unit)
| ObsWriteEc (r : outcome errorcode)
| ObsRead (r : outcome string)
| ObsReadEc (r : outcome (errorcode * string)).

Definition perform (c : call) (api : AsyncAPI) : AsyncAPI * observation :=
  match c with
  | CallInject ec => let (api', r) := inject_error ec api in (api', ObsInject r)
  | CallWrite data => let (api', r) := write data api in (api', ObsWrite r)
  | CallWriteEc data => let (api', r) := write_ec data api in (api', ObsWriteEc r)
  | CallRead => let (api', r) := read api in (api', ObsRead r)
  | CallReadEc => let (api', r) := read_ec api in (api', ObsReadEc r)
  end.

(* the calls are performed in order; the log lists them oldest first *)
Fixpoint run (cs : list call) (api : AsyncAPI)
  : AsyncAPI * list (call * observation) :=
  match cs with
  | [] => (api, [])
  | c :: cs' =>
      let (api1, o) := perform c api in
      let (api2, log) := run cs' api1 in
      (api2, (c, o) :: log)
  end.

(* a write succeeded when write returned, or write_ec returned 0 *)
Definition successful_write (entry : call * observation) : option string :=
  match entry with
  | (CallWrite data, ObsWrite (Returned _)) => Some data
  | (CallWriteEc data, ObsWriteEc (Returned 0)) => Some data
  | _ => None
  end.

(* the payload of the latest successful write of a log, [before] if none *)
Fixpoint last_successful_write (log : list (call * observation))
    (before : string) : string :=
  match log with
  | [] => before
  | entry :: log' =>
      match successful_write entry with
      | Some data => last_successful_write log' data
      | None => last_successful_write log' before
      end
  end.

(* the four operations of the service, as opposed to error injection *)
Definition is_operation (c : call) : bool :=
  match c with
  | CallInject _ => false
  | _ => true
  end.

(** The code an operation let its caller observe: the returned code, or
    the code a value-returning adapter turned into a failure ([0] when it
    returned). *)
Definition observes (c : call) (o : observation) (ec : errorcode) : Prop :=
  match c, o with
  | CallWriteEc _, ObsWriteEc r => r = Returned ec
  | CallReadEc, ObsReadEc r => exists data, r = Returned (ec, data)
  | CallWrite _, ObsWrite r =>
      if ec =? 0 then r = Returned tt
      else r = Thrown (make_exception "write" ec)
  | CallRead, ObsRead r =>
      if ec =? 0 then exists data, r = Returned data
      else r = Thrown (make_exception "read" ec)
  | _, _ => False
  end.

(** ** The value-returning adapters, written over the outcome-returning ones *)

Definition write_via_ec (data : string) : M unit :=
  ec <- write_ec data ;;
  if ec =? 0 then ret tt else throw (make_exception "write" ec).

Definition read_via_ec : M string :=
  r <- read_ec ;;
  if fst r =? 0 then ret (snd r) else throw (make_exception "read" (fst r)).

(** ** Decimal numerals: what a well-formed one is *)

Definition is_nonzero_digit (c : ascii) : bool :=
  (49 <=? Z.of_N (N_of_ascii c)) && (Z.of_N (N_of_ascii c) <=? 57).

(* digits only, the first of them not a zero *)
Definition canonical_nonzero (s : string) : bool :=
  match s with
  | EmptyString => false
  | String c s' => is_nonzero_digit c && all_digits s'
  end.

(* digits only, and no leading zero except for "0" itself *)
Definition canonical_unsigned (s : string) : bool :=
  (s =? "0")%string || canonical_nonzero s.

(* as above, or a minus sign in front of a numeral that is not zero *)
Definition canonical_int (s : string) : bool :=
  match s with
  | EmptyString => false
  | String c s' =>
      if (c =? "-")%char then canonical_nonzero s' else canonical_unsigned s
  end.

(** [s] is the decimal representation of [v] *)
Definition decimal_of (s : string) (v : Z) : Prop :=
  canonical_int s = true /\ int_value s = v.

(** ** Strings without a NUL byte *)

Fixpoint nul_free (s : string) : bool :=
  match s with
  | EmptyString => true
  | String c s' => negb (c =? Ascii.zero)%char && nul_free s'
  end.

(** ** Reading a log *)

(* the two calls that store a payload *)
Definition is_write (c : call) : bool :=
  match c with
  | CallWrite _ | CallWriteEc _ => true
  | _ => false
  end.

(* the value-returning adapters, which turn a code into a failure *)
Definition is_value_returning (c : call) : bool :=
  match c with
  | CallWrite _ | CallRead => true
  | _ => false
  end.

Inductive ending := EndReturned | EndThrown | EndHalted.

Definition ending_of {T} (r : outcome T) : ending :=
  match r with
  | Returned _ => EndReturned
  | Thrown _ => EndThrown
  | Halted => EndHalted
  end.

Definition how_ended (o : observation) : ending :=
  match o with
  | ObsInject r => ending_of r
  | ObsWrite r => ending_of r
  | ObsWriteEc r => ending_of r
  | ObsRead r => ending_of r
  | ObsReadEc r => ending_of r
  end.

(* the values of an int *)
Definition INT_MIN : Z := - 2147483648.
Definition INT_MAX : Z := 2147483647.

(** * Properties *)

(** ** Strings *)

Lemma append_assoc (a b c : string) : (a ++ b) ++ c = a ++ (b ++ c).
Proof. induction a as [|x a IH]; simpl; [reflexivity | now rewrite IH]. Qed.

Lemma append_inv_head (a b c : string) : a ++ b = a ++ c -> b = c.
Proof.
  induction a as [|x a IH]; simpl; intros H; [exact H|].
  injection H as H. now apply IH.
Qed.

Lemma numeral_value_app (s1 s2 : string) (v : Z) :
  numeral_value (s1 ++ s2) v = numeral_value s2 (numeral_value s1 v).
Proof.
  revert v. induction s1 as [|c s1 IH]; intros v; simpl; [reflexivity|].
  apply IH.
Qed.

Lemma all_digits_app (s1 s2 : string) :
  all_digits (s1 ++ s2) = all_digits s1 && all_digits s2.
Proof.
  induction s1 as [|c s1 IH]; simpl; [reflexivity|].
  now rewrite IH, andb_assoc.
Qed.

(** ** Digits *)

Ltac digit_cases d :=
  let H := fresh in
  assert (H : d = 0 \/ d = 1 \/ d = 2 \/ d = 3 \/ d = 4 \/
              d = 5 \/ d = 6 \/ d = 7 \/ d = 8 \/ d = 9) by lia;
  repeat (destruct H as [H | H]; [rewrite H; try reflexivity; try lia |]);
  try (rewrite H; try reflexivity; try lia).

Lemma digit_value_char (d : Z) : 0 <= d < 10 -> digit_value (digit_char d) = d.
Proof. intros Hd. digit_cases d. Qed.

Lemma is_digit_char (d : Z) : 0 <= d < 10 -> is_digit (digit_char d) = true.
Proof. intros Hd. digit_cases d. Qed.

Lemma is_nonzero_digit_char (d : Z) :
  0 < d < 10 -> is_nonzero_digit (digit_char d) = true.
Proof. intros Hd. digit_cases d. Qed.

Lemma is_nonzero_digit_is_digit (c : ascii) :
  is_nonzero_digit c = true -> is_digit c = true.
Proof.
  unfold is_nonzero_digit, is_digit. rewrite !andb_true_iff, !Z.leb_le. lia.
Qed.

Lemma digit_char_value (c : ascii) :
  is_digit c = true -> digit_char (digit_value c) = c /\ 0 <= digit_value c < 10.
Proof.
  unfold is_digit, digit_char, digit_value.
  rewrite andb_true_iff, !Z.leb_le. intros [Hlo Hhi]. split; [|lia].
  replace (48 + Z.to_N (Z.of_N (N_of_ascii c) - 48))%N with (N_of_ascii c) by lia.
  apply ascii_N_embedding.
Qed.

(** ** Printing an integer *)

Lemma put_digits_acc (fuel : nat) (n : Z) (acc : string) :
  put_digits fuel n acc = put_digits fuel n "" ++ acc.
Proof.
  revert n acc. induction fuel as [|fuel IH]; intros n acc; simpl; [reflexivity|].
  destruct (n / 10 =? 0); [reflexivity|].
  rewrite IH, (IH _ (String _ "")), append_assoc. reflexivity.
Qed.

Lemma pow2_S (k : nat) : 2 ^ Z.of_nat (S k) = 2 * 2 ^ Z.of_nat k.
Proof. rewrite Nat2Z.inj_succ, Z.pow_succ_r by lia. reflexivity. Qed.

Lemma pow2_pos (k : nat) : 0 < 2 ^ Z.of_nat k.
Proof. apply Z.pow_pos_nonneg; lia. Qed.

Lemma div10_bound (k : nat) (n : Z) :
  0 <= n < 2 ^ Z.of_nat (S k) -> 0 <= n / 10 < 2 ^ Z.of_nat k.
Proof.
  rewrite pow2_S. intros [H0 H1]. pose proof (pow2_pos k). split.
  - apply Z.div_pos; lia.
  - apply Z.div_lt_upper_bound; lia.
Qed.

(** One step of the digit loop. *)
Lemma put_digits_step (k : nat) (n : Z) :
  put_digits (S k) n "" =
    if n / 10 =? 0 then String (digit_char (n mod 10)) ""
    else put_digits k (n / 10) "" ++ String (digit_char (n mod 10)) "".
Proof.
  simpl. destruct (n / 10 =? 0); [reflexivity|].
  apply put_digits_acc.
Qed.

(** With enough fuel the amount of fuel does not matter. *)
Lemma put_digits_fuel (k1 k2 : nat) (n : Z) (acc : string) :
  0 <= n < 2 ^ Z.of_nat (S k1) -> 0 <= n < 2 ^ Z.of_nat (S k2) ->
  put_digits (S k1) n acc = put_digits (S k2) n acc.
Proof.
  revert k2 n acc. induction k1 as [|k1 IH]; intros k2 n acc H1 H2.
  - assert (Hn : n / 10 = 0) by (apply Z.div_small; simpl in H1; lia).
    simpl. rewrite Hn. reflexivity.
  - destruct k2 as [|k2].
    + assert (Hn : n / 10 = 0) by (apply Z.div_small; simpl in H2; lia).
      simpl. rewrite Hn. reflexivity.
    + change (put_digits (S (S k1)) n acc) with
        (let acc' := String (digit_char (n mod 10)) acc in
         if n / 10 =? 0 then acc' else put_digits (S k1) (n / 10) acc').
      change (put_digits (S (S k2)) n acc) with
        (let acc' := String (digit_char (n mod 10)) acc in
         if n / 10 =? 0 then acc' else put_digits (S k2) (n / 10) acc').
      cbv zeta. destruct (n / 10 =? 0); [reflexivity|].
      apply IH; apply div10_bound; assumption.
Qed.

Lemma digit_fuel_enough (n : Z) :
  0 <= n -> 0 <= n < 2 ^ Z.of_nat (digit_fuel n).
Proof.
  intros Hn. split; [exact Hn|]. unfold digit_fuel.
  rewrite Nat2Z.inj_succ, Z2Nat.id by apply Z.log2_nonneg.
  destruct (Z.eq_dec n 0) as [->|Hz]; [reflexivity|].
  apply Z.log2_spec. lia.
Qed.

Lemma put_unsigned_fuel (k : nat) (n : Z) :
  0 <= n < 2 ^ Z.of_nat (S k) -> put_digits (S k) n "" = put_unsigned n.
Proof.
  intros H. unfold put_unsigned.
  pose proof (digit_fuel_enough n (proj1 H)) as Hf.
  unfold digit_fuel in *. apply put_digits_fuel; assumption.
Qed.

(** The digit loop as a recursion on the value. *)
Lemma put_unsigned_small (n : Z) :
  0 <= n < 10 -> put_unsigned n = String (digit_char n) "".
Proof.
  intros H. pose proof (digit_fuel_enough n (proj1 H)) as Hf.
  unfold put_unsigned, digit_fuel in *. rewrite put_digits_step.
  rewrite Z.div_small, Z.mod_small by lia. reflexivity.
Qed.

Lemma put_unsigned_large (n : Z) :
  10 <= n ->
  put_unsigned n = put_unsigned (n / 10) ++ String (digit_char (n mod 10)) "".
Proof.
  intros H. assert (H0 : 0 <= n) by lia.
  pose proof (digit_fuel_enough n H0) as Hf.
  unfold put_unsigned at 1. unfold digit_fuel in *.
  rewrite put_digits_step.
  assert (Hq : 1 <= n / 10) by (apply Z.div_le_lower_bound; lia).
  destruct (Z.eqb_spec (n / 10) 0) as [E|_]; [lia|].
  destruct (Z.to_nat (Z.log2 n)) as [|k] eqn:Ek.
  - simpl in Hf. lia.
  - rewrite put_unsigned_fuel; [reflexivity|].
    apply div10_bound. exact Hf.
Qed.

Lemma put_unsigned_zero : put_unsigned 0 = "0".
Proof. reflexivity. Qed.

Lemma put_unsigned_pos (n : Z) :
  0 <= n -> 0 < n ->
  canonical_nonzero (put_unsigned n) = true /\
  all_digits (put_unsigned n) = true /\
  numeral_value (put_unsigned n) 0 = n.
Proof.
  intros Hn. pattern n. apply Z_lt_induction; [|exact Hn].
  clear n Hn. intros n IH Hpos.
  destruct (Z_lt_le_dec n 10) as [Hs|Hl].
  - rewrite put_unsigned_small by lia.
    cbn [canonical_nonzero all_digits numeral_value].
    rewrite is_nonzero_digit_char, is_digit_char, digit_value_char by lia.
    repeat split; lia.
  - rewrite put_unsigned_large by exact Hl.
    assert (Hq : 1 <= n / 10) by (apply Z.div_le_lower_bound; lia).
    assert (Hlt : n / 10 < n) by (apply Z.div_lt; lia).
    pose proof (Z.mod_pos_bound n 10 ltac:(lia)) as Hm.
    destruct (IH (n / 10) ltac:(lia) ltac:(lia)) as (Hc & Hd & Hv).
    rewrite all_digits_app, numeral_value_app, Hd, Hv.
    cbn [all_digits numeral_value andb].
    rewrite is_digit_char, digit_value_char by exact Hm.
    repeat split.
    + destruct (put_unsigned (n / 10)) as [|c s']; [discriminate Hc|].
      cbn [canonical_nonzero append] in *.
      apply andb_true_iff in Hc as [Hc1 Hc2].
      rewrite Hc1, all_digits_app, Hc2. cbn [all_digits andb].
      now rewrite is_digit_char by exact Hm.
    + pose proof (Z.div_mod n 10 ltac:(lia)). lia.
Qed.

Lemma canonical_nonzero_not_minus (s : string) :
  canonical_nonzero s = true ->
  exists c s', s = String c s' /\ (c =? "-")%char = false.
Proof.
  destruct s as [|c s']; [discriminate|]. simpl. intros H.
  apply andb_true_iff in H as [H _]. exists c, s'. split; [reflexivity|].
  destruct (Ascii.eqb_spec c "-") as [->|]; [discriminate H|reflexivity].
Qed.

(** [put_int] writes the decimal representation of its argument. *)
Lemma put_int_decimal (v : Z) : decimal_of (put_int v) v.
Proof.
  unfold decimal_of, put_int. destruct (Z.ltb_spec v 0) as [Hneg|Hpos].
  - destruct (put_unsigned_pos (- v)) as (Hc & _ & Hv); [lia|lia|].
    simpl. rewrite Hc, Hv. split; [reflexivity|lia].
  - destruct (Z.eq_dec v 0) as [->|Hnz]; [split; reflexivity|].
    destruct (put_unsigned_pos v) as (Hc & _ & Hv); [lia|lia|].
    destruct (canonical_nonzero_not_minus _ Hc) as (c & s' & Es & Ec).
    rewrite Es in *. unfold canonical_int, int_value, canonical_unsigned.
    rewrite Ec, Hc, Hv, orb_true_r. split; reflexivity.
Qed.

(** ** A value has one decimal representation *)

Lemma string_rev_ind (P : string -> Prop) :
  P "" ->
  (forall s c, P s -> P (s ++ String c "")) ->
  forall s, P s.
Proof.
  intros Hnil Hsnoc s.
  rewrite <- (string_of_list_ascii_of_string s).
  induction (list_ascii_of_string s) as [|c l IH] using rev_ind; [exact Hnil|].
  replace (string_of_list_ascii (l ++ [c]))
    with (string_of_list_ascii l ++ String c "").
  - apply Hsnoc, IH.
  - clear. induction l as [|x l IH]; simpl; [reflexivity | now rewrite IH].
Qed.

Lemma put_unsigned_numeral (s : string) (c : ascii) :
  is_nonzero_digit c = true -> all_digits s = true ->
  put_unsigned (numeral_value (String c s) 0) = String c s /\
  1 <= numeral_value (String c s) 0.
Proof.
  intros Hc. induction s as [|s x IH] using string_rev_ind; intros Hs.
  - cbn [numeral_value].
    destruct (digit_char_value c (is_nonzero_digit_is_digit c Hc)) as [Hr Hb].
    assert (1 <= digit_value c).
    { revert Hc. unfold is_nonzero_digit, digit_value.
      rewrite andb_true_iff, !Z.leb_le. lia. }
    rewrite put_unsigned_small by lia.
    replace (10 * 0 + digit_value c) with (digit_value c) by lia.
    rewrite Hr. split; [reflexivity|lia].
  - rewrite all_digits_app in Hs. apply andb_true_iff in Hs as [Hs Hx].
    cbn [all_digits] in Hx. rewrite andb_true_r in Hx.
    destruct (IH Hs) as [IHs IHv].
    destruct (digit_char_value x Hx) as [Hr Hb].
    change (String c (s ++ String x "")) with (String c s ++ String x "").
    rewrite numeral_value_app. cbn [numeral_value] in *.
    set (V := numeral_value s (10 * 0 + digit_value c)) in *.
    assert (Hq : (10 * V + digit_value x) / 10 = V).
    { symmetry. apply (Z.div_unique _ 10 V (digit_value x)); lia. }
    assert (Hm : (10 * V + digit_value x) mod 10 = digit_value x).
    { symmetry. apply (Z.mod_unique _ 10 V (digit_value x)); lia. }
    rewrite put_unsigned_large by lia.
    rewrite Hq, Hm, IHs, Hr. split; [reflexivity|lia].
Qed.

Lemma put_int_int_value (s : string) :
  canonical_int s = true -> put_int (int_value s) = s.
Proof.
  destruct s as [|c s]; [discriminate|].
  unfold canonical_int, int_value.
  destruct (Ascii.eqb_spec c "-") as [->|Hc].
  - destruct s as [|c' s']; [discriminate|].
    cbn [canonical_nonzero]. intros H. apply andb_true_iff in H as [H1 H2].
    destruct (put_unsigned_numeral s' c' H1 H2) as [Hp Hv].
    unfold put_int.
    destruct (Z.ltb_spec (- numeral_value (String c' s') 0) 0); [|lia].
    rewrite Z.opp_involutive, Hp. reflexivity.
  - unfold canonical_unsigned. intros H. apply orb_true_iff in H as [H|H].
    + apply String.eqb_eq in H. rewrite H. reflexivity.
    + cbn [canonical_nonzero] in H. apply andb_true_iff in H as [H1 H2].
      destruct (put_unsigned_numeral s c H1 H2) as [Hp Hv].
      unfold put_int.
      destruct (Z.ltb_spec (numeral_value (String c s) 0) 0); [lia|].
      exact Hp.
Qed.

Lemma decimal_of_unique (s : string) (v : Z) :
  decimal_of s v -> s = put_int v.
Proof.
  intros [Hc Hv]. rewrite <- Hv. symmetry. now apply put_int_int_value.
Qed.

Lemma put_int_inj (a b : Z) : put_int a = put_int b -> a = b.
Proof.
  intros H. destruct (put_int_decimal a) as [_ Ha].
  destruct (put_int_decimal b) as [_ Hb]. congruence.
Qed.

Lemma make_exception_text (desc : string) (ec : errorcode) :
  message (make_exception desc ec) =
    "Error in AsyncAPI::" ++ desc ++ "(): " ++ put_int ec.
Proof.
  unfold make_exception. cbn [message]. rewrite !append_assoc. reflexivity.
Qed.

(** Failures built for one operation differ when their codes do. *)
Lemma make_exception_inj (desc : string) (a b : errorcode) :
  make_exception desc a = make_exception desc b -> a = b.
Proof.
  intros H. apply (f_equal message) in H. rewrite !make_exception_text in H.
  apply append_inv_head, append_inv_head, append_inv_head in H.
  now apply put_int_inj.
Qed.

(** ** Reading a text up to its first NUL *)

Lemma c_str_nul_free (s : string) : nul_free s = true -> c_str s = s.
Proof.
  induction s as [|c s IH]; cbn [nul_free c_str]; [reflexivity|].
  intros H. apply andb_true_iff in H as [Hc Hs].
  destruct (c =? Ascii.zero)%char; [discriminate Hc|].
  now rewrite IH.
Qed.

Lemma nul_free_app (a b : string) :
  nul_free (a ++ b) = nul_free a && nul_free b.
Proof.
  induction a as [|c a IH]; cbn [append nul_free]; [reflexivity|].
  now rewrite IH, andb_assoc.
Qed.

Lemma all_digits_nul_free (s : string) : all_digits s = true -> nul_free s = true.
Proof.
  induction s as [|c s IH]; cbn [all_digits nul_free]; [reflexivity|].
  intros H. apply andb_true_iff in H as [Hc Hs]. rewrite (IH Hs), andb_true_r.
  destruct (Ascii.eqb_spec c Ascii.zero) as [->|_]; [discriminate Hc|reflexivity].
Qed.

Lemma canonical_nonzero_nul_free (s : string) :
  canonical_nonzero s = true -> nul_free s = true.
Proof.
  destruct s as [|c s]; [discriminate|]. cbn [canonical_nonzero].
  intros H. apply andb_true_iff in H as [Hc Hs].
  apply (all_digits_nul_free (String c s)). cbn [all_digits].
  now rewrite (is_nonzero_digit_is_digit c Hc), Hs.
Qed.

(** A printed integer holds no NUL. *)
Lemma put_int_nul_free (v : Z) : nul_free (put_int v) = true.
Proof.
  destruct (put_int_decimal v) as [Hc _].
  destruct (put_int v) as [|c s]; [reflexivity|].
  unfold canonical_int in Hc. destruct (Ascii.eqb_spec c "-") as [->|Hm].
  - cbn [nul_free]. now rewrite (canonical_nonzero_nul_free s Hc).
  - unfold canonical_unsigned in Hc. apply orb_true_iff in Hc as [Hc|Hc].
    + apply String.eqb_eq in Hc. rewrite Hc. reflexivity.
    + exact (canonical_nonzero_nul_free _ Hc).
Qed.

(** For a name without a NUL, [what()] shows the whole text. *)
Lemma make_exception_what (desc : string) (ec : errorcode) :
  nul_free desc = true ->
  what (make_exception desc ec) =
    "Error in AsyncAPI::" ++ desc ++ "(): " ++ put_int ec.
Proof.
  intros H. unfold what. rewrite make_exception_text.
  apply c_str_nul_free. rewrite !nul_free_app, H, put_int_nul_free.
  reflexivity.
Qed.

(** ** What one call does *)

Lemma inject_error_run (ec : errorcode) (api : AsyncAPI) :
  inject_error ec api = ({| data_ := data_ api; injected_ := ec |}, Returned tt).
Proof. reflexivity. Qed.

Lemma write_ec_run (data : string) (api : AsyncAPI) :
  write_ec data api =
    ({| data_ := if injected_ api =? 0 then data else data_ api;
        injected_ := 0 |},
     Returned (injected_ api)).
Proof.
  unfold write_ec, bind, init_write, future_get, set_value, ret.
  destruct (injected_ api =? 0); reflexivity.
Qed.

Lemma read_ec_run (api : AsyncAPI) :
  read_ec api =
    ({| data_ := data_ api; injected_ := 0 |},
     Returned (injected_ api, data_ api)).
Proof. reflexivity. Qed.

Lemma write_run (data : string) (api : AsyncAPI) :
  write data api =
    ({| data_ := if injected_ api =? 0 then data else data_ api;
        injected_ := 0 |},
     if injected_ api =? 0 then Returned tt
     else Thrown (make_exception "write" (injected_ api))).
Proof.
  unfold write, bind. rewrite write_ec_run.
  destruct (injected_ api =? 0); reflexivity.
Qed.

Lemma read_run (api : AsyncAPI) :
  read api =
    ({| data_ := data_ api; injected_ := 0 |},
     if injected_ api =? 0 then Returned (data_ api)
     else Thrown (make_exception "read" (injected_ api))).
Proof.
  unfold read, bind, init_read, future_get, set_value, set_exception.
  cbn [injected_ data_]. destruct (injected_ api =? 0); reflexivity.
Qed.

Create Rewrite HintDb service.
#[local] Hint Rewrite inject_error_run write_ec_run read_ec_run
  write_run read_run : service.

Ltac run_calls :=
  unfold bind; autorewrite with service; cbn [fst snd data_ injected_].

(** ** Histories *)

(** The stored payload after one call: the written one when the call was a
    successful write, the old one otherwise. *)
Lemma perform_data (c : call) (api : AsyncAPI) :
  data_ (fst (perform c api)) =
    match successful_write (c, snd (perform c api)) with
    | Some data => data
    | None => data_ api
    end.
Proof.
  destruct c; cbn [perform]; autorewrite with service;
    cbn [fst snd data_ successful_write]; try reflexivity.
  - destruct (injected_ api =? 0); reflexivity.
  - destruct (Z.eqb_spec (injected_ api) 0) as [->|Hnz]; [reflexivity|].
    destruct (injected_ api); congruence.
Qed.

Lemma run_cons (c : call) (cs : list call) (api : AsyncAPI) :
  run (c :: cs) api =
    (fst (run cs (fst (perform c api))),
     (c, snd (perform c api)) :: snd (run cs (fst (perform c api)))).
Proof.
  cbn [run]. destruct (perform c api) as [api1 o]. cbn [fst snd].
  destruct (run cs api1). reflexivity.
Qed.

(** The service stores the payload of the last successful write. *)
Lemma run_data (cs : list call) (api0 : AsyncAPI) :
  data_ (fst (run cs api0)) =
    last_successful_write (snd (run cs api0)) (data_ api0).
Proof.
  revert api0. induction cs as [|c cs IH]; intros api0; [reflexivity|].
  rewrite run_cons. cbn [fst snd last_successful_write].
  rewrite IH, perform_data.
  destruct (successful_write (c, snd (perform c api0))); reflexivity.
Qed.

(** Every operation resets the pending code. *)
Lemma perform_resets (c : call) (api : AsyncAPI) :
  is_operation c = true -> injected_ (fst (perform c api)) = 0.
Proof.
  destruct c; cbn [is_operation perform]; try discriminate; intros _;
    autorewrite with service; reflexivity.
Qed.

(** Every operation lets its caller observe the pending code. *)
Lemma perform_observes (c : call) (api : AsyncAPI) :
  is_operation c = true ->
  observes c (snd (perform c api)) (injected_ api).
Proof.
  destruct c; cbn [is_operation perform]; try discriminate; intros _;
    autorewrite with service; cbn [snd observes].
  - destruct (injected_ api =? 0); reflexivity.
  - reflexivity.
  - destruct (injected_ api =? 0); [exists (data_ api)|]; reflexivity.
  - exists (data_ api). reflexivity.
Qed.

(** What was observed determines the code. *)
Lemma observes_code (c : call) (o : observation) (a b : errorcode) :
  observes c o a -> observes c o b -> a = b.
Proof.
  destruct c, o; cbn [observes]; try contradiction.
  - destruct (Z.eqb_spec a 0), (Z.eqb_spec b 0); intros Ha Hb; subst;
      try congruence.
    apply (make_exception_inj "write"). congruence.
  - congruence.
  - destruct (Z.eqb_spec a 0), (Z.eqb_spec b 0); intros Ha Hb; subst;
      try congruence.
    + destruct Ha as [d Ha]. congruence.
    + destruct Hb as [d Hb]. congruence.
    + apply (make_exception_inj "read"). congruence.
  - intros [d1 Ha] [d2 Hb]. congruence.
Qed.

(** ** The driving logic runs to its end *)

Lemma main_exit_success :
  main AsyncAPI_new = ({| data_ := "efgh"; injected_ := 0 |}, Returned EXIT_SUCCESS).
Proof. vm_compute. reflexivity. Qed.

(** ** The literal scenario, call by call *)

Example put_int_samples :
  put_int 0 = "0" /\ put_int 4 = "4" /\ put_int 100 = "100" /\
  put_int 2147483647 = "2147483647" /\ put_int (-2147483648) = "-2147483648".
Proof. repeat split; reflexivity. Qed.

Example make_exception_write_2 :
  what (make_exception "write" 2) = "Error in AsyncAPI::write(): 2".
Proof. reflexivity. Qed.

Example scenario_log :
  snd (run [CallWrite "abcd"; CallRead; CallWriteEc "efgh";
            CallInject 1; CallWriteEc "ijkl";
            CallInject 2; CallWrite "mnop";
            CallReadEc;
            CallInject 3; CallReadEc;
            CallInject 4; CallRead] AsyncAPI_new)
  = [(CallWrite "abcd", ObsWrite (Returned tt));
     (CallRead, ObsRead (Returned "abcd"));
     (CallWriteEc "efgh", ObsWriteEc (Returned 0));
     (CallInject 1, ObsInject (Returned tt));
     (CallWriteEc "ijkl", ObsWriteEc (Returned 1));
     (CallInject 2, ObsInject (Returned tt));
     (CallWrite "mnop",
      ObsWrite (Thrown (mk_runtime_error "Error in AsyncAPI::write(): 2")));
     (CallReadEc, ObsReadEc (Returned (0, "efgh")));
     (CallInject 3, ObsInject (Returned tt));
     (CallReadEc, ObsReadEc (Returned (3, "efgh")));
     (CallInject 4, ObsInject (Returned tt));
     (CallRead,
      ObsRead (Thrown (mk_runtime_error "Error in AsyncAPI::read(): 4")))].
Proof. vm_compute. reflexivity. Qed.


(** * The claims *)

(** C1: with a nonzero code C injected just before the call, [write] and
    [read] each raise the failure that [make_exception] builds from the
    operation's name and C (for [read] and 4 the text is
    "Error in AsyncAPI::read(): 4"); with C = 0 they return. *)
Theorem value_adapters_raise_injected (api : AsyncAPI) (C : errorcode)
    (data : string) :
  (C <> 0 ->
     snd ((inject_error C ;; write data) api)
       = Thrown (make_exception "write" C) /\
     snd ((inject_error C ;; read) api)
       = Thrown (make_exception "read" C)) /\
  (C = 0 ->
     snd ((inject_error C ;; write data) api) = Returned tt /\
     snd ((inject_error C ;; read) api) = Returned (data_ api)) /\
  what (make_exception "read" 4) = "Error in AsyncAPI::read(): 4".
Proof.
  run_calls. split; [|split].
  - intros Hnz. destruct (Z.eqb_spec C 0); [contradiction|].
    split; reflexivity.
  - intros ->. split; reflexivity.
  - reflexivity.
Qed.

Lemma value_adapters_raise_injected_witness :
  snd ((inject_error 4 ;; write "mnop") AsyncAPI_new)
    = Thrown (make_exception "write" 4) /\
  snd ((inject_error 4 ;; read) AsyncAPI_new)
    = Thrown (make_exception "read" 4).
Proof.
  apply (proj1 (value_adapters_raise_injected AsyncAPI_new 4 "mnop")). lia.
Defined.

(** C2: with a nonzero code C injected just before the call, [write_ec]
    returns C and does not raise, whatever the data. *)
Theorem write_ec_returns_injected (api : AsyncAPI) (C : errorcode)
    (data : string) :
  C <> 0 -> snd ((inject_error C ;; write_ec data) api) = Returned C.
Proof. intros _. run_calls. reflexivity. Qed.

Lemma write_ec_returns_injected_witness :
  snd ((inject_error 1 ;; write_ec "ijkl") AsyncAPI_new) = Returned 1.
Proof. apply write_ec_returns_injected. lia. Defined.

(** C3: from a state with no pending injected error, a write of P succeeds
    and the read that follows returns exactly P. *)
Theorem write_then_read_roundtrip (api : AsyncAPI) (P : string) :
  injected_ api = 0 ->
  snd (write P api) = Returned tt /\
  snd ((write P ;; read) api) = Returned P /\
  snd ((ec <- write_ec P ;; s <- read ;; ret (ec, s)) api) = Returned (0, P).
Proof.
  intros H. run_calls. rewrite H. cbn. repeat split; reflexivity.
Qed.

Lemma write_then_read_roundtrip_witness :
  snd (write "abcd" AsyncAPI_new) = Returned tt /\
  snd ((write "abcd" ;; read) AsyncAPI_new) = Returned "abcd" /\
  snd ((ec <- write_ec "abcd" ;; s <- read ;; ret (ec, s)) AsyncAPI_new)
    = Returned (0, "abcd").
Proof. apply write_then_read_roundtrip. reflexivity. Defined.

(** C4: when the pending code is 0, [write_ec] returns 0 and [read_ec]
    returns code 0 together with the payload of the last successful write
    of the history that led to the state. *)
Theorem outcome_adapters_succeed (cs : list call) (api0 : AsyncAPI)
    (data : string) :
  injected_ (fst (run cs api0)) = 0 ->
  snd (write_ec data (fst (run cs api0))) = Returned 0 /\
  snd (read_ec (fst (run cs api0)))
    = Returned (0, last_successful_write (snd (run cs api0)) (data_ api0)).
Proof.
  intros H. run_calls. rewrite H, run_data. split; reflexivity.
Qed.

Lemma outcome_adapters_succeed_witness :
  snd (write_ec "x"
         (fst (run [CallWriteEc "efgh"; CallInject 1; CallWriteEc "ijkl"]
                   AsyncAPI_new))) = Returned 0 /\
  snd (read_ec
         (fst (run [CallWriteEc "efgh"; CallInject 1; CallWriteEc "ijkl"]
                   AsyncAPI_new))) = Returned (0, "efgh").
Proof.
  apply (outcome_adapters_succeed
           [CallWriteEc "efgh"; CallInject 1; CallWriteEc "ijkl"]
           AsyncAPI_new "x").
  reflexivity.
Defined.

(** C5: error injection is one-shot.  After injecting C the next operation,
    whichever of the four it is, observes C; once it has completed the
    pending code is 0, and the operation after it observes 0. *)
Theorem injection_is_one_shot (api : AsyncAPI) (C : errorcode)
    (c1 c2 : call) :
  is_operation c1 = true -> is_operation c2 = true ->
  let api1 := fst (inject_error C api) in
  let api2 := fst (perform c1 api1) in
  observes c1 (snd (perform c1 api1)) C /\
  injected_ api2 = 0 /\
  observes c2 (snd (perform c2 api2)) 0.
Proof.
  intros H1 H2 api1 api2. split; [|split].
  - apply (perform_observes c1 api1 H1).
  - apply perform_resets, H1.
  - pose proof (perform_observes c2 api2 H2) as Ho.
    unfold api2 in Ho at 2. rewrite (perform_resets c1 api1 H1) in Ho.
    exact Ho.
Qed.

Lemma injection_is_one_shot_witness :
  observes CallRead
    (snd (perform CallRead (fst (inject_error 4 AsyncAPI_new)))) 4 /\
  injected_ (fst (perform CallRead (fst (inject_error 4 AsyncAPI_new)))) = 0 /\
  observes (CallWriteEc "efgh")
    (snd (perform (CallWriteEc "efgh")
            (fst (perform CallRead (fst (inject_error 4 AsyncAPI_new)))))) 0.
Proof.
  apply (injection_is_one_shot AsyncAPI_new 4 CallRead (CallWriteEc "efgh"));
    reflexivity.
Defined.

(** C6, as amended: [make_exception] is a function of the operation's name
    and the code alone.  For every name that holds no NUL byte and every
    code, the message read through [what()] is
    "Error in AsyncAPI::<operation>(): <code>" where <code> is the one
    decimal representation of the code, and raising what it built leaves
    the service as it was. *)
Theorem make_exception_message (desc : string) (ec : errorcode) :
  nul_free desc = true ->
  (exists numeral,
     what (make_exception desc ec)
       = "Error in AsyncAPI::" ++ desc ++ "(): " ++ numeral /\
     decimal_of numeral ec /\
     forall s, decimal_of s ec -> s = numeral) /\
  (forall api : AsyncAPI,
     fst (throw (T := unit) (make_exception desc ec) api) = api).
Proof.
  intros Hd. split; [|reflexivity].
  exists (put_int ec). split; [apply make_exception_what, Hd|].
  split; [apply put_int_decimal|]. intros s. apply decimal_of_unique.
Qed.

Lemma make_exception_message_witness :
  what (make_exception "write" 2) = "Error in AsyncAPI::write(): 2" /\
  decimal_of "2" 2.
Proof.
  destruct (make_exception_message "write" 2 eq_refl)
    as [[numeral (Hw & Hd & Hu)] _].
  assert (E : "2" = numeral) by (apply Hu; split; reflexivity).
  rewrite <- E in Hw, Hd. split; [exact Hw | exact Hd].
Defined.

(** C6, as first stated, fails for a name that holds a NUL byte: the text
    read through [what()] stops before that byte, so it is not the name
    followed by "(): " and a numeral. *)
Lemma make_exception_message_counterexample :
  what (make_exception (String "a" (String Ascii.zero "b")) 1)
    = "Error in AsyncAPI::a" /\
  ~ (exists numeral,
       what (make_exception (String "a" (String Ascii.zero "b")) 1)
         = "Error in AsyncAPI::" ++ String "a" (String Ascii.zero "b")
             ++ "(): " ++ numeral).
Proof.
  split; [reflexivity|]. intros [numeral H].
  vm_compute in H. discriminate H.
Qed.

(** C7: a write made while a nonzero code is pending fails and leaves the
    stored payload alone: the [read_ec] that follows succeeds with the
    payload of the last successful write, after [write_ec] and after
    [write] alike. *)
Theorem failed_write_keeps_payload (cs : list call) (api0 : AsyncAPI)
    (data : string) :
  injected_ (fst (run cs api0)) <> 0 ->
  let api := fst (run cs api0) in
  let stored := last_successful_write (snd (run cs api0)) (data_ api0) in
  snd (write_ec data api) = Returned (injected_ api) /\
  snd (write data api) = Thrown (make_exception "write" (injected_ api)) /\
  data_ (fst (write_ec data api)) = data_ api /\
  data_ (fst (write data api)) = data_ api /\
  snd (read_ec (fst (write_ec data api))) = Returned (0, stored) /\
  snd (read_ec (fst (write data api))) = Returned (0, stored).
Proof.
  intros H api stored. unfold stored. rewrite <- run_data. fold api.
  run_calls. destruct (Z.eqb_spec (injected_ api) 0) as [E|_].
  - contradiction.
  - repeat split; reflexivity.
Qed.

Lemma failed_write_keeps_payload_witness :
  snd (write_ec "ijkl"
         (fst (run [CallWriteEc "efgh"; CallInject 1] AsyncAPI_new)))
    = Returned 1 /\
  snd (write "ijkl"
         (fst (run [CallWriteEc "efgh"; CallInject 1] AsyncAPI_new)))
    = Thrown (make_exception "write" 1) /\
  snd (read_ec
         (fst (write_ec "ijkl"
                 (fst (run [CallWriteEc "efgh"; CallInject 1] AsyncAPI_new)))))
    = Returned (0, "efgh") /\
  snd (read_ec
         (fst (write "ijkl"
                 (fst (run [CallWriteEc "efgh"; CallInject 1] AsyncAPI_new)))))
    = Returned (0, "efgh").
Proof.
  destruct (failed_write_keeps_payload
              [CallWriteEc "efgh"; CallInject 1] AsyncAPI_new "ijkl")
    as (H1 & H2 & _ & _ & H5 & H6); [discriminate|].
  split; [exact H1|]. split; [exact H2|]. split; [exact H5 | exact H6].
Defined.

(** C8: also when the code it returns is nonzero, [read_ec] returns the
    payload the service stores at that time, which is the payload of the
    last successful write. *)
Theorem read_ec_payload_on_error (cs : list call) (api0 : AsyncAPI) :
  injected_ (fst (run cs api0)) <> 0 ->
  let api := fst (run cs api0) in
  snd (read_ec api) = Returned (injected_ api, data_ api) /\
  data_ api = last_successful_write (snd (run cs api0)) (data_ api0).
Proof.
  intros _ api. split; [reflexivity | apply run_data].
Qed.

Lemma read_ec_payload_on_error_witness :
  snd (read_ec (fst (run [CallWriteEc "efgh"; CallInject 3] AsyncAPI_new)))
    = Returned (3, "efgh").
Proof.
  apply (read_ec_payload_on_error [CallWriteEc "efgh"; CallInject 3]
           AsyncAPI_new).
  discriminate.
Defined.

(** C9: [write] is [write_ec] followed by raising
    [make_exception "write" ec] exactly when the code is nonzero, and
    [read] is [read_ec] followed by raising [make_exception "read" ec] when
    the code is nonzero and returning the payload otherwise; result and
    service state agree in both pairs. *)
Theorem value_adapters_refine_outcome_adapters (api : AsyncAPI)
    (data : string) :
  write data api = write_via_ec data api /\
  read api = read_via_ec api.
Proof.
  unfold write_via_ec, read_via_ec. run_calls.
  destruct (injected_ api =? 0); split; reflexivity.
Qed.

(** C10: [inject_error] overwrites a pending code that was not consumed:
    the pending code is the one injected last, an earlier injection leaves
    no trace, and the next operation observes the last one only. *)
Theorem inject_error_overwrites (api : AsyncAPI) (C1 C2 : errorcode) :
  injected_ (fst (inject_error C2 api)) = C2 /\
  data_ (fst (inject_error C2 api)) = data_ api /\
  (inject_error C1 ;; inject_error C2) api = inject_error C2 api /\
  (forall c, is_operation c = true ->
     observes c
       (snd (perform c (fst ((inject_error C1 ;; inject_error C2) api)))) C2).
Proof.
  repeat split. intros c Hc.
  apply (perform_observes c {| data_ := data_ api; injected_ := C2 |} Hc).
Qed.

Lemma inject_error_overwrites_witness :
  observes CallReadEc
    (snd (perform CallReadEc
            (fst ((inject_error 3 ;; inject_error 5) AsyncAPI_new)))) 5.
Proof.
  apply (inject_error_overwrites AsyncAPI_new 3 5). reflexivity.
Defined.

(** * Further properties of the service and its adapters *)

(** ** Histories, continued *)

Lemma run_app (cs1 cs2 : list call) (api : AsyncAPI) :
  run (cs1 ++ cs2)%list api =
    (fst (run cs2 (fst (run cs1 api))),
     (snd (run cs1 api) ++ snd (run cs2 (fst (run cs1 api))))%list).
Proof.
  revert api. induction cs1 as [|c cs1 IH]; intros api.
  - cbn [app run fst snd]. destruct (run cs2 api). reflexivity.
  - rewrite <- app_comm_cons, !run_cons, IH. reflexivity.
Qed.

Lemma run_single (c : call) (api : AsyncAPI) :
  run [c] api = (fst (perform c api), [(c, snd (perform c api))]).
Proof. rewrite run_cons. reflexivity. Qed.

(** How one call ends: a value-returning adapter throws when a code is
    pending, everything else returns. *)
Lemma perform_ending (c : call) (api : AsyncAPI) :
  how_ended (snd (perform c api)) =
    if is_value_returning c && negb (injected_ api =? 0)
    then EndThrown else EndReturned.
Proof.
  destruct c; cbn [perform is_value_returning andb];
    autorewrite with service; cbn [snd how_ended ending_of]; try reflexivity;
    destruct (injected_ api =? 0); reflexivity.
Qed.

Lemma run_snoc_pending (cs : list call) (c : call) (api0 : AsyncAPI) :
  injected_ (fst (run (cs ++ [c])%list api0)) =
    match c with
    | CallInject ec => ec
    | _ => 0
    end.
Proof.
  rewrite run_app, run_single. cbn [fst].
  destruct c; try (apply perform_resets; reflexivity).
  reflexivity.
Qed.

(** X1: the pending code depends on the last call alone: it is the code
    of that call when the call is an injection and 0 after any of the four
    operations, whatever came before. *)
Theorem pending_code_after_last_call (cs : list call) (c : call)
    (api0 : AsyncAPI) :
  injected_ (fst (run (cs ++ [c])%list api0)) =
    match c with
    | CallInject ec => ec
    | _ => 0
    end.
Proof. apply run_snoc_pending. Qed.

(** X2: in every history no call halts (the promise is fulfilled exactly
    once and the future is always made ready), and the only calls that end
    in a failure are [write] and [read]: [write_ec], [read_ec] and
    [inject_error] always return. *)
Theorem calls_never_halt (cs : list call) (api0 : AsyncAPI)
    (entry : call * observation) :
  In entry (snd (run cs api0)) ->
  how_ended (snd entry) <> EndHalted /\
  (how_ended (snd entry) = EndThrown -> is_value_returning (fst entry) = true).
Proof.
  revert api0. induction cs as [|c cs IH]; intros api0; [contradiction|].
  rewrite run_cons. cbn [snd In]. intros [<-|Hin]; [|exact (IH _ Hin)].
  cbn [fst snd]. rewrite perform_ending.
  destruct (is_value_returning c); cbn [andb];
    [destruct (negb (injected_ api0 =? 0))|]; split; congruence.
Qed.

Lemma calls_never_halt_witness :
  how_ended (ObsWrite (Thrown (make_exception "write" 2))) <> EndHalted /\
  (how_ended (ObsWrite (Thrown (make_exception "write" 2))) = EndThrown ->
   is_value_returning (CallWrite "mnop") = true).
Proof.
  apply (calls_never_halt [CallInject 2; CallWrite "mnop"] AsyncAPI_new
           (CallWrite "mnop", ObsWrite (Thrown (make_exception "write" 2)))).
  right. left. reflexivity.
Defined.

(** X3: reads and injections never touch the stored payload: after a
    history without a write the service stores what it stored before, and
    a [read_ec] made then returns that payload, with the pending code. *)
Theorem reads_keep_payload (cs : list call) (api0 : AsyncAPI) :
  forallb (fun c => negb (is_write c)) cs = true ->
  data_ (fst (run cs api0)) = data_ api0 /\
  snd (read_ec (fst (run cs api0)))
    = Returned (injected_ (fst (run cs api0)), data_ api0).
Proof.
  intros H.
  assert (Hd : data_ (fst (run cs api0)) = data_ api0).
  { revert api0. induction cs as [|c cs IH]; intros api0; [reflexivity|].
    cbn [forallb] in H. apply andb_true_iff in H as [Hc Hcs].
    rewrite run_cons. cbn [fst]. rewrite (IH Hcs), perform_data.
    destruct c; try discriminate Hc; reflexivity. }
  split; [exact Hd|]. rewrite read_ec_run. cbn [snd]. now rewrite Hd.
Qed.

Lemma reads_keep_payload_witness :
  data_ (fst (run [CallRead; CallInject 3; CallReadEc; CallInject 4; CallRead]
                  (fst (write "abcd" AsyncAPI_new)))) = "abcd" /\
  snd (read_ec
         (fst (run [CallRead; CallInject 3; CallReadEc; CallInject 4; CallRead]
                   (fst (write "abcd" AsyncAPI_new)))))
    = Returned (0, "abcd").
Proof.
  apply (reads_keep_payload
           [CallRead; CallInject 3; CallReadEc; CallInject 4; CallRead]
           (fst (write "abcd" AsyncAPI_new))).
  reflexivity.
Defined.

(** X4: a call fails exactly when it is [write] or [read] and the call
    made just before it injected a nonzero code. *)
Theorem failure_needs_fresh_injection (cs : list call) (c0 c : call)
    (api0 : AsyncAPI) :
  how_ended (snd (perform c (fst (run (cs ++ [c0])%list api0)))) = EndThrown
  <->
  is_value_returning c = true /\ exists ec, c0 = CallInject ec /\ ec <> 0.
Proof.
  rewrite perform_ending, run_snoc_pending.
  destruct (is_value_returning c); cbn [andb].
  - destruct c0 as [ec| | | |]; cbn [Z.eqb negb].
    + destruct (Z.eqb_spec ec 0) as [->|Hnz]; cbn [negb]; split.
      * discriminate.
      * intros [_ (ec' & E & Hnz)]. injection E as <-. contradiction.
      * intros _. split; [reflexivity|]. exists ec. split; [reflexivity|exact Hnz].
      * reflexivity.
    + split; [discriminate|]. intros [_ (ec & E & _)]. discriminate E.
    + split; [discriminate|]. intros [_ (ec & E & _)]. discriminate E.
    + split; [discriminate|]. intros [_ (ec & E & _)]. discriminate E.
    + split; [discriminate|]. intros [_ (ec & E & _)]. discriminate E.
  - split; [discriminate|]. intros [E _]. discriminate E.
Qed.

(** ** The text of a failure *)

Lemma list_ascii_app (a b : string) :
  list_ascii_of_string (a ++ b)
    = (list_ascii_of_string a ++ list_ascii_of_string b)%list.
Proof. induction a as [|x a IH]; simpl; [reflexivity | now rewrite IH]. Qed.

Lemma list_ascii_inj (a b : string) :
  list_ascii_of_string a = list_ascii_of_string b -> a = b.
Proof.
  intros H. rewrite <- (string_of_list_ascii_of_string a),
    <- (string_of_list_ascii_of_string b), H. reflexivity.
Qed.

(** Cutting a list at the first occurrence of a separator. *)
Lemma split_at_first {A} (c : A) (x x' y y' : list A) :
  ~ In c x -> ~ In c x' ->
  (x ++ c :: y = x' ++ c :: y')%list -> x = x' /\ y = y'.
Proof.
  revert x'. induction x as [|a x IH]; intros [|a' x'] Hx Hx' E;
    cbn [app] in E.
  - injection E as E. split; [reflexivity|exact E].
  - injection E as E _. exfalso. apply Hx'. left. now symmetry.
  - injection E as E _. exfalso. apply Hx. left. exact E.
  - injection E as -> E.
    destruct (IH x') as [-> ->]; try exact E.
    + intros Hin. apply Hx. now right.
    + intros Hin. apply Hx'. now right.
    + split; reflexivity.
Qed.

Lemma all_digits_no_space (s : string) :
  all_digits s = true -> ~ In " "%char (list_ascii_of_string s).
Proof.
  induction s as [|c s IH]; cbn [all_digits list_ascii_of_string In].
  - intros _ [].
  - intros H. apply andb_true_iff in H as [Hc Hs]. intros [E|Hin].
    + subst c. discriminate Hc.
    + exact (IH Hs Hin).
Qed.

Lemma canonical_nonzero_no_space (s : string) :
  canonical_nonzero s = true -> ~ In " "%char (list_ascii_of_string s).
Proof.
  destruct s as [|c s]; [discriminate|]. cbn [canonical_nonzero].
  intros H. apply andb_true_iff in H as [Hc Hs].
  apply (all_digits_no_space (String c s)). cbn [all_digits].
  now rewrite (is_nonzero_digit_is_digit c Hc), Hs.
Qed.

(** A printed integer holds no space. *)
Lemma put_int_no_space (v : Z) : ~ In " "%char (list_ascii_of_string (put_int v)).
Proof.
  destruct (put_int_decimal v) as [Hc _].
  destruct (put_int v) as [|c s]; [intros []|].
  unfold canonical_int in Hc. destruct (Ascii.eqb_spec c "-") as [->|Hm].
  - cbn [list_ascii_of_string In]. intros [E|Hin]; [discriminate E|].
    exact (canonical_nonzero_no_space s Hc Hin).
  - unfold canonical_unsigned in Hc. apply orb_true_iff in Hc as [Hc|Hc].
    + apply String.eqb_eq in Hc. rewrite Hc. cbn.
      intros [E|[]]. discriminate E.
    + exact (canonical_nonzero_no_space _ Hc).
Qed.

Lemma make_exception_inj_both (d1 d2 : string) (a b : errorcode) :
  message (make_exception d1 a) = message (make_exception d2 b) ->
  d1 = d2 /\ a = b.
Proof.
  intros H. rewrite !make_exception_text in H.
  apply append_inv_head in H.
  apply (f_equal list_ascii_of_string) in H. rewrite !list_ascii_app in H.
  apply (f_equal (@rev ascii)) in H. rewrite !rev_app_distr in H.
  cbn [list_ascii_of_string rev app] in H. rewrite <- !app_assoc in H.
  cbn [app] in H.
  apply split_at_first in H as [Hn Hd].
  - split.
    + injection Hd as Hd. apply list_ascii_inj.
      rewrite <- (rev_involutive (list_ascii_of_string d1)), Hd.
      apply rev_involutive.
    + apply put_int_inj, list_ascii_inj.
      rewrite <- (rev_involutive (list_ascii_of_string (put_int a))), Hn.
      apply rev_involutive.
  - rewrite <- in_rev. apply put_int_no_space.
  - rewrite <- in_rev. apply put_int_no_space.
Qed.

(** X5: for operation names that hold no NUL byte, the text of a failure
    tells which operation failed and with which code: two failures built
    by [make_exception] whose [what()] texts are equal have the same name
    and the same code. *)
Theorem failure_text_determines_cause (d1 d2 : string) (a b : errorcode) :
  nul_free d1 = true -> nul_free d2 = true ->
  what (make_exception d1 a) = what (make_exception d2 b) ->
  d1 = d2 /\ a = b.
Proof.
  intros H1 H2 H. apply make_exception_inj_both.
  rewrite !make_exception_what in H by assumption.
  rewrite !make_exception_text. exact H.
Qed.

Lemma failure_text_determines_cause_witness :
  "write" = "write" /\ 2 = 2.
Proof.
  apply (failure_text_determines_cause "write" "write" 2 2); reflexivity.
Defined.

(** Without that condition two names and two codes can share a text. *)
Example failure_text_shared_after_nul :
  what (make_exception (String "a" (String Ascii.zero "b")) 1)
    = what (make_exception (String "a" (String Ascii.zero "c")) 2).
Proof. reflexivity. Qed.

Lemma length_append_string (a b : string) :
  String.length (a ++ b) = (String.length a + String.length b)%nat.
Proof. induction a as [|x a IH]; simpl; [reflexivity | now rewrite IH]. Qed.

(** A value below [10^k] is written with at most [k] digits. *)
Lemma length_put_unsigned (k : nat) (n : Z) :
  0 <= n < 10 ^ Z.of_nat (S k) ->
  (1 <= String.length (put_unsigned n) <= S k)%nat.
Proof.
  revert n. induction k as [|k IH]; intros n Hn.
  - rewrite put_unsigned_small by (change (10 ^ Z.of_nat 1) with 10 in Hn; lia).
    cbn [String.length]. lia.
  - destruct (Z_lt_le_dec n 10) as [Hs|Hl].
    + rewrite put_unsigned_small by lia. cbn [String.length]. lia.
    + rewrite put_unsigned_large, length_append_string by exact Hl.
      cbn [String.length].
      assert (Hq : 0 <= n / 10 < 10 ^ Z.of_nat (S k)).
      { split; [apply Z.div_pos; lia|].
        apply Z.div_lt_upper_bound; [lia|].
        replace (Z.of_nat (S (S k))) with (Z.succ (Z.of_nat (S k))) in Hn by lia.
        rewrite Z.pow_succ_r in Hn by lia. lia. }
      specialize (IH _ Hq). lia.
Qed.

Lemma length_put_int (v : Z) :
  INT_MIN <= v <= INT_MAX -> (1 <= String.length (put_int v) <= 11)%nat.
Proof.
  unfold INT_MIN, INT_MAX, put_int. intros Hv.
  destruct (Z.ltb_spec v 0) as [Hneg|Hpos].
  - cbn [String.length].
    assert (H : 0 <= - v < 10 ^ Z.of_nat 10)
      by (change (10 ^ Z.of_nat 10) with 10000000000; lia).
    pose proof (length_put_unsigned 9 _ H). lia.
  - assert (H : 0 <= v < 10 ^ Z.of_nat 10)
      by (change (10 ^ Z.of_nat 10) with 10000000000; lia).
    pose proof (length_put_unsigned 9 _ H). lia.
Qed.

(** X6: for every operation name that holds no NUL byte and every code
    an [int] can hold, the text of a failure is the name and between 24
    and 34 further characters: the fixed text and a numeral of 1 to 11
    characters. *)
Theorem failure_text_length (desc : string) (ec : errorcode) :
  nul_free desc = true ->
  INT_MIN <= ec <= INT_MAX ->
  (String.length desc + 24
     <= String.length (what (make_exception desc ec))
     <= String.length desc + 34)%nat.
Proof.
  intros Hd H. pose proof (length_put_int ec H) as Hl.
  rewrite make_exception_what, !length_append_string by exact Hd.
  cbn [String.length]. lia.
Qed.

Lemma failure_text_length_witness :
  (String.length "read" + 24
     <= String.length (what (make_exception "read" INT_MIN))
     <= String.length "read" + 34)%nat.
Proof.
  apply (failure_text_length "read" INT_MIN);
    [reflexivity | unfold INT_MIN, INT_MAX; lia].
Defined.

(** ** The driving logic, from any idle service *)

(** X7: run on a service with no pending code, [main] passes every one of
    its assertions, catches both failures it provokes and returns
    [EXIT_SUCCESS], leaving "efgh" stored and no code pending, whatever the
    service stored at the start. *)
Theorem main_succeeds_when_idle (api : AsyncAPI) :
  injected_ api = 0 ->
  main api = ({| data_ := "efgh"; injected_ := 0 |}, Returned EXIT_SUCCESS).
Proof.
  destruct api as [d i]. cbn [injected_]. intros ->.
  vm_compute. reflexivity.
Qed.

Lemma main_succeeds_when_idle_witness :
  main AsyncAPI_new
    = ({| data_ := "efgh"; injected_ := 0 |}, Returned EXIT_SUCCESS).
Proof. apply main_succeeds_when_idle. reflexivity. Defined.

(** ** Retrying *)

(** X8: a write that failed can be retried at once: whatever code C was
    injected, the first [write_ec] returns C, the same call made again
    returns 0, and the [read_ec] after it returns the payload with code 0. *)
Theorem failed_write_can_be_retried (api : AsyncAPI) (C : errorcode)
    (P : string) :
  snd ((inject_error C ;;
        first <- write_ec P ;;
        second <- write_ec P ;;
        r <- read_ec ;;
        ret (first, second, r)) api)
  = Returned (C, 0, (0, P)).
Proof.
  run_calls. destruct (C =? 0); reflexivity.
Qed.
